(** * LuaJIT library initialization (lib_init.c)

    A shallow embedding of [lj_lib_load], [lj_lib_preload] and
    [luaL_openlibs], with the part of the Lua C API the installer drives
    (value stack, registry, globals, calls), and the properties of the
    two-phase loading protocol. *)

From stdpp Require Import gmap strings list fin_maps.
From Stdlib Require Import ZArith.

Local Open Scope Z_scope.

(** ** Entry points and descriptors *)

(** The library openers declared in lualib.h.  A [lua_CFunction] is a code
    pointer; the installer only moves it around and hands it to [lua_call],
    so it is modelled by its identity. *)
Inductive lua_CFunction :=
  | luaopen_base | luaopen_package | luaopen_table | luaopen_io
  | luaopen_os | luaopen_string | luaopen_math | luaopen_debug
  | luaopen_bit | luaopen_jit | luaopen_ffi.

#[global] Instance lua_CFunction_eq_dec : EqDecision lua_CFunction.
Proof. solve_decision. Defined.

(** Modelled from the spec: the library-name macros of lualib.h, a header
    lib_init.c only includes.  The spec names the modules string, table, io,
    math, os, bit, jit, ffi, debug and package. *)
Definition LUA_LOADLIBNAME : string := "package".
Definition LUA_TABLIBNAME : string := "table".
Definition LUA_IOLIBNAME : string := "io".
Definition LUA_OSLIBNAME : string := "os".
Definition LUA_STRLIBNAME : string := "string".
Definition LUA_MATHLIBNAME : string := "math".
Definition LUA_DBLIBNAME : string := "debug".
Definition LUA_BITLIBNAME : string := "bit".
Definition LUA_JITLIBNAME : string := "jit".
Definition LUA_FFILIBNAME : string := "ffi".

(** [luaL_Reg]: a name and a function pointer, either of which may be NULL
    ([None]); the all-NULL record is the sentinel closing an array. *)
Record luaL_Reg := mkReg { name : option string; func : option lua_CFunction }.

#[global] Instance luaL_Reg_eq_dec : EqDecision luaL_Reg.
Proof. solve_decision. Defined.

Definition reg (n : string) (f : lua_CFunction) : luaL_Reg :=
  {| name := Some n; func := Some f |}.

Definition sentinel : luaL_Reg := {| name := None; func := None |}.

(** ** Build configuration *)

(** One field per preprocessor symbol tested in lib_init.c.  A
    [WB_DISABLE_LIB_*] field is [true] when the macro is defined;
    [LJ_HASFFI] is the value lj_arch.h gives the macro. *)
Record Config := mkConfig {
  WB_DISABLE_LIB_BASE : bool;
  WB_DISABLE_LIB_PACKAGE : bool;
  WB_DISABLE_LIB_TABLE : bool;
  WB_DISABLE_LIB_IO : bool;
  WB_DISABLE_LIB_OS : bool;
  WB_DISABLE_LIB_STRING : bool;
  WB_DISABLE_LIB_MATH : bool;
  WB_DISABLE_LIB_DEBUG : bool;
  WB_DISABLE_LIB_BIT : bool;
  WB_DISABLE_LIB_JIT : bool;
  LJ_HASFFI : bool
}.

(** [#ifndef m ... #endif] and [#if m ... #endif] around array initializers. *)
Definition ifndef {A} (defined : bool) (body : list A) : list A :=
  if defined then [] else body.

Definition ifdef {A} (value : bool) (body : list A) : list A :=
  if value then body else [].

Definition lj_lib_load (c : Config) : list luaL_Reg :=
  ifndef (WB_DISABLE_LIB_BASE c) [reg "" luaopen_base] ++
  ifndef (WB_DISABLE_LIB_PACKAGE c) [reg LUA_LOADLIBNAME luaopen_package] ++
  ifndef (WB_DISABLE_LIB_TABLE c) [reg LUA_TABLIBNAME luaopen_table] ++
  ifndef (WB_DISABLE_LIB_IO c) [reg LUA_IOLIBNAME luaopen_io] ++
  ifndef (WB_DISABLE_LIB_OS c) [reg LUA_OSLIBNAME luaopen_os] ++
  ifndef (WB_DISABLE_LIB_STRING c) [reg LUA_STRLIBNAME luaopen_string] ++
  ifndef (WB_DISABLE_LIB_MATH c) [reg LUA_MATHLIBNAME luaopen_math] ++
  ifndef (WB_DISABLE_LIB_DEBUG c) [reg LUA_DBLIBNAME luaopen_debug] ++
  ifndef (WB_DISABLE_LIB_BIT c) [reg LUA_BITLIBNAME luaopen_bit] ++
  ifndef (WB_DISABLE_LIB_JIT c) [reg LUA_JITLIBNAME luaopen_jit] ++
  [sentinel].

Definition lj_lib_preload (c : Config) : list luaL_Reg :=
  ifdef (LJ_HASFFI c) [reg LUA_FFILIBNAME luaopen_ffi] ++
  [sentinel].

(** The descriptors a [for (lib = arr; lib->func; lib++)] loop visits: the
    records before the first one whose [func] is NULL. *)
Fixpoint descriptors (arr : list luaL_Reg) : list luaL_Reg :=
  match arr with
  | [] => []
  | lib :: arr' =>
      match func lib with
      | Some _ => lib :: descriptors arr'
      | None => []
      end
  end.

(** The two sets of the spec, read off the arrays. *)
Definition EagerModuleSet (c : Config) : list luaL_Reg :=
  descriptors (lj_lib_load c).

Definition LazyModuleSet (c : Config) : list luaL_Reg :=
  descriptors (lj_lib_preload c).

Definition names (libs : list luaL_Reg) : list string :=
  omap name libs.

Definition funcs (libs : list luaL_Reg) : list lua_CFunction :=
  omap func libs.

(** [sizeof(arr)/sizeof(arr[0])]: the element count of a static array. *)
Definition array_size (arr : list luaL_Reg) : Z := Z.of_nat (length arr).

(** The build with every library compiled in. *)
Definition full_config : Config :=
  mkConfig false false false false false false false false false false true.

(** The optional modules, to speak of "the switch of a module". *)
Inductive module :=
  | Base | Package | Table | Io | Os | String_ | Math | Debug | Bit | Jit | Ffi.

#[global] Instance module_eq_dec : EqDecision module.
Proof. solve_decision. Defined.

(** The name and the opener lib_init.c pairs for each module. *)
Definition module_name (m : module) : string :=
  match m with
  | Base => ""
  | Package => LUA_LOADLIBNAME
  | Table => LUA_TABLIBNAME
  | Io => LUA_IOLIBNAME
  | Os => LUA_OSLIBNAME
  | String_ => LUA_STRLIBNAME
  | Math => LUA_MATHLIBNAME
  | Debug => LUA_DBLIBNAME
  | Bit => LUA_BITLIBNAME
  | Jit => LUA_JITLIBNAME
  | Ffi => LUA_FFILIBNAME
  end.

Definition module_func (m : module) : lua_CFunction :=
  match m with
  | Base => luaopen_base
  | Package => luaopen_package
  | Table => luaopen_table
  | Io => luaopen_io
  | Os => luaopen_os
  | String_ => luaopen_string
  | Math => luaopen_math
  | Debug => luaopen_debug
  | Bit => luaopen_bit
  | Jit => luaopen_jit
  | Ffi => luaopen_ffi
  end.

Definition module_reg (m : module) : luaL_Reg :=
  reg (module_name m) (module_func m).

(** The order in which [lj_lib_load] lists the modules, and the one module
    of [lj_lib_preload]. *)
Definition eager_order : list module :=
  [Base; Package; Table; Io; Os; String_; Math; Debug; Bit; Jit].

Definition lazy_order : list module := [Ffi].

(** [disabled c m]: the build switch of [m] removes it (for the FFI module,
    the platform capability is absent). *)
Definition disabled (c : Config) (m : module) : bool :=
  match m with
  | Base => WB_DISABLE_LIB_BASE c
  | Package => WB_DISABLE_LIB_PACKAGE c
  | Table => WB_DISABLE_LIB_TABLE c
  | Io => WB_DISABLE_LIB_IO c
  | Os => WB_DISABLE_LIB_OS c
  | String_ => WB_DISABLE_LIB_STRING c
  | Math => WB_DISABLE_LIB_MATH c
  | Debug => WB_DISABLE_LIB_DEBUG c
  | Bit => WB_DISABLE_LIB_BIT c
  | Jit => WB_DISABLE_LIB_JIT c
  | Ffi => negb (LJ_HASFFI c)
  end.

Definition enabled (c : Config) (m : module) : Prop := disabled c m = false.

#[global] Instance enabled_dec c m : Decision (enabled c m).
Proof. unfold enabled. apply _. Defined.

(** ** Interpreter state *)

(** Lua values as far as the installer meets them: nil, strings, C functions
    and references to tables. *)
Inductive TValue :=
  | TNil
  | TStr (s : string)
  | TFunc (f : lua_CFunction)
  | TTab (r : nat).

#[global] Instance TValue_eq_dec : EqDecision TValue.
Proof. solve_decision. Defined.

(** What outlives a C call: the global namespace, the registry and the
    tables reachable through references. An absent key reads as nil. *)
Record Store := mkStore {
  globals : gmap string TValue;
  registry : gmap string TValue;
  tables : gmap nat (gmap string TValue)
}.

(** API calls with an effect visible outside the value stack, in the order
    the installer makes them. *)
Inductive event :=
  | EvCall (f : lua_CFunction) (args : list TValue) (nresults : Z)
  | EvFindTable (idx : Z) (fname : string) (szhint : Z)
  | EvSetField (idx : Z) (k : string) (v : TValue).

#[global] Instance event_eq_dec : EqDecision event.
Proof. solve_decision. Defined.

(** [stack] has the top of the Lua stack at its head (index -1). [trace]
    is ghost state: the events so far, oldest first. *)
Record lua_State := mkState {
  stack : list TValue;
  store : Store;
  trace : list event
}.

(** How an API call or the installer ends: it returns, an error is raised
    (with the state reached when it was raised: nothing is undone), or the C
    code has no defined behaviour (reading past an array that lacks its
    sentinel, a call or a store with too few values on the stack, a NULL
    key). *)
Inductive outcome :=
  | Returned (L : lua_State)
  | Raised (L : lua_State)
  | Fault.

Definition and_then (o : outcome) (k : lua_State -> outcome) : outcome :=
  match o with
  | Returned L => k L
  | Raised L => Raised L
  | Fault => Fault
  end.

Notation "'do' L' <- o ; k" := (and_then o (fun L' => k))
  (at level 10, L' name, o at level 100, k at level 200).

(** What running an entry point does: it returns some result values, or it
    raises an error; either way it may have changed the store. *)
Inductive call_result :=
  | CallReturns (st : Store) (results : list TValue)
  | CallRaises (st : Store).

(** A C string as a Lua value; NULL gives nil. *)
Definition name_value (s : option string) : TValue :=
  match s with
  | Some s => TStr s
  | None => TNil
  end.

Definition push (v : TValue) (L : lua_State) : lua_State :=
  {| stack := v :: stack L; store := store L; trace := trace L |}.

Definition log (e : event) (L : lua_State) : lua_State :=
  {| stack := stack L; store := store L; trace := trace L ++ [e] |}.

(** Modelled from the spec: the pseudo-indices and LUA_MULTRET of lua.h, a
    header lib_init.c only includes; the registry is the "reserved registry
    key" space the spec places the PreloadTable in. *)
Definition LUA_REGISTRYINDEX : Z := -10000.
Definition LUA_GLOBALSINDEX : Z := -10002.
Definition LUA_MULTRET : Z := -1.

Inductive tabref :=
  | RegistryTab
  | GlobalsTab
  | HeapTab (r : nat).

(** The table an index designates: a pseudo-index, or a stack slot holding a
    table (negative indices count from the top, positive ones from the
    bottom). [None] when there is no table there. *)
Definition index2tab (L : lua_State) (idx : Z) : option tabref :=
  if decide (idx = LUA_REGISTRYINDEX) then Some RegistryTab
  else if decide (idx = LUA_GLOBALSINDEX) then Some GlobalsTab
  else
    let pos :=
      if decide (idx < 0) then Some (Z.to_nat (- idx - 1))
      else if decide (0 < idx <= Z.of_nat (length (stack L)))
           then Some (length (stack L) - Z.to_nat idx)%nat
           else None in
    match pos ≫= (stack L !!.) with
    | Some (TTab r) => Some (HeapTab r)
    | _ => None
    end.

Definition tab_get (st : Store) (t : tabref) (k : string) : option TValue :=
  match t with
  | RegistryTab => registry st !! k
  | GlobalsTab => globals st !! k
  | HeapTab r => tables st !! r ≫= (.!! k)
  end.

Definition field_set (k : string) (v : TValue) (t : gmap string TValue)
  : gmap string TValue :=
  if decide (v = TNil) then delete k t else <[k := v]> t.

Definition tab_set (st : Store) (t : tabref) (k : string) (v : TValue) : Store :=
  match t with
  | RegistryTab =>
      {| globals := globals st; registry := field_set k v (registry st);
         tables := tables st |}
  | GlobalsTab =>
      {| globals := field_set k v (globals st); registry := registry st;
         tables := tables st |}
  | HeapTab r =>
      {| globals := globals st; registry := registry st;
         tables := <[r := field_set k v (default ∅ (tables st !! r))]> (tables st) |}
  end.

(** A reference no table of the store has yet. *)
Definition new_ref (st : Store) : nat := fresh (dom (tables st)).

Definition new_table (r : nat) (st : Store) : Store :=
  {| globals := globals st; registry := registry st;
     tables := <[r := ∅]> (tables st) |}.

(** Sample entry points, to run the installer on concrete inputs. [stub_open]
    binds a new table to the global named by its argument (the base library,
    called with the empty name, binds "_G") and returns that table as its one
    result; any other argument list is an error. *)
Definition stub_open (f : lua_CFunction) (args : list TValue) (st : Store)
  : call_result :=
  match args with
  | [TStr n] =>
      let r := new_ref st in
      let g := if decide (n = "") then "_G" else n in
      CallReturns (tab_set (new_table r st) GlobalsTab g (TTab r)) [TTab r]
  | _ => CallRaises st
  end.

(** As [stub_open], but the io library fails to open, after leaving a mark
    in the registry. *)
Definition stub_open_io_fails (f : lua_CFunction) (args : list TValue) (st : Store)
  : call_result :=
  match f with
  | luaopen_io => CallRaises (tab_set st RegistryTab "io_failed" (TStr "yes"))
  | _ => stub_open f args st
  end.

Definition empty_store : Store :=
  {| globals := ∅; registry := ∅; tables := ∅ |}.

(** A freshly created interpreter state, with one value of the caller's on
    the stack. *)
Definition fresh_state : lua_State :=
  {| stack := [TStr "caller"]; store := empty_store; trace := [] |}.

(** A restricted build: no io, no os, no debug, no FFI. *)
Definition restricted_config : Config :=
  mkConfig false false false true true false false true false false false.

(** ** The installer *)

Section Installer.

(** The behaviour of the library openers, which lib_init.c only calls. *)
Variable entry_point : lua_CFunction -> list TValue -> Store -> call_result.

Definition lua_pushcfunction (f : lua_CFunction) (L : lua_State) : lua_State :=
  push (TFunc f) L.

(** [lua_pushstring] pushes nil for a NULL string. *)
Definition lua_pushstring (s : option string) (L : lua_State) : lua_State :=
  push (name_value s) L.

(** The callee's results, cut or padded with nil to [nresults] values
    unless [nresults] is [LUA_MULTRET]. *)
Definition adjust_results (nresults : Z) (results : list TValue) : list TValue :=
  if decide (nresults = LUA_MULTRET) then results
  else resize (Z.to_nat nresults) TNil results.

(** Modelled from the spec: [lua_call] of the Lua C API, which lib_init.c
    only calls: "a call with exactly one input value and zero consumed
    return values", made "inside the same execution context"; "if an
    entry_point raises/aborts, that failure propagates synchronously".
    The function and its [nargs] arguments are popped, the entry point
    runs on the store, and [nresults] results are pushed. *)
Definition lua_call (nargs : nat) (nresults : Z) (L : lua_State) : outcome :=
  match drop nargs (stack L) with
  | [] => Fault
  | TFunc f :: below =>
      let args := reverse (take nargs (stack L)) in
      let tr := trace L ++ [EvCall f args nresults] in
      match entry_point f args (store L) with
      | CallReturns st results =>
          Returned {| stack := reverse (adjust_results nresults results) ++ below;
                      store := st; trace := tr |}
      | CallRaises st =>
          Raised {| stack := below; store := st; trace := tr |}
      end
  | _ :: below =>
      Raised {| stack := below; store := store L; trace := trace L |}
  end.

(** Modelled from the spec: [luaL_findtable] of the auxiliary library, which
    lib_init.c only calls, for a name without dots: "locate or create the
    PreloadTable as a table-valued registry entry", the size being "a
    capacity hint, not a hard limit".  The table found or created
    is pushed.  When the slot holds a value that is not a table no
    table-valued entry can be had, and the lookup is taken to fail, as the
    spec has failures of this step "immediate, fatal to the call"; the spec
    does not describe that case.  Running out of memory while creating the
    table is not modelled. *)
Definition luaL_findtable (idx : Z) (fname : string) (szhint : Z)
    (L : lua_State) : outcome :=
  let L := log (EvFindTable idx fname szhint) L in
  match index2tab L idx with
  | None => Raised L
  | Some t =>
      match tab_get (store L) t fname with
      | None | Some TNil =>
          let r := new_ref (store L) in
          let st := tab_set (new_table r (store L)) t fname (TTab r) in
          Returned (push (TTab r)
                      {| stack := stack L; store := st; trace := trace L |})
      | Some (TTab r) => Returned (push (TTab r) L)
      | Some _ => Raised L
      end
  end.

(** Modelled from the spec: [lua_setfield] of the Lua C API, which
    lib_init.c only calls: "store entry_point under key name in the
    PreloadTable".  The value on top of the stack is stored in the table at
    [idx] and popped; a NULL key has no defined behaviour. *)
Definition lua_setfield (idx : Z) (k : option string) (L : lua_State) : outcome :=
  match k, stack L with
  | Some k, v :: below =>
      match index2tab L idx with
      | None => Raised L
      | Some t =>
          Returned {| stack := below; store := tab_set (store L) t k v;
                      trace := trace L ++ [EvSetField idx k v] |}
      end
  | _, _ => Fault
  end.

Definition lua_pop (n : nat) (L : lua_State) : lua_State :=
  {| stack := drop n (stack L); store := store L; trace := trace L |}.

(** The first loop of [luaL_openlibs], over the records from [lib] on. *)
Fixpoint luaL_openlibs_load (lib : list luaL_Reg) (L : lua_State) : outcome :=
  match lib with
  | [] => Fault
  | r :: lib' =>
      match func r with
      | None => Returned L
      | Some f =>
          do L <- lua_call 1 0 (lua_pushstring (name r) (lua_pushcfunction f L));
          luaL_openlibs_load lib' L
      end
  end.

(** The second loop of [luaL_openlibs]. *)
Fixpoint luaL_openlibs_preload (lib : list luaL_Reg) (L : lua_State) : outcome :=
  match lib with
  | [] => Fault
  | r :: lib' =>
      match func r with
      | None => Returned L
      | Some f =>
          do L <- lua_setfield (-2) (name r) (lua_pushcfunction f L);
          luaL_openlibs_preload lib' L
      end
  end.

Definition luaL_openlibs (c : Config) (L : lua_State) : outcome :=
  do L <- luaL_openlibs_load (lj_lib_load c) L;
  do L <- luaL_findtable LUA_REGISTRYINDEX "_PRELOAD"
            (array_size (lj_lib_preload c) - 1) L;
  do L <- luaL_openlibs_preload (lj_lib_preload c) L;
  Returned (lua_pop 1 L).

End Installer.

(** ** The events a run of the installer is expected to make *)

(** The call the first loop makes for a descriptor. *)
Definition call_event (lib : luaL_Reg) : option event :=
  f ← func lib; Some (EvCall f [name_value (name lib)] 0).

(** The store the second loop makes for a descriptor. *)
Definition setfield_event (lib : luaL_Reg) : option event :=
  n ← name lib; f ← func lib; Some (EvSetField (-2) n (TFunc f)).

Definition findtable_event (c : Config) : event :=
  EvFindTable LUA_REGISTRYINDEX "_PRELOAD" (Z.of_nat (length (LazyModuleSet c))).

Definition installer_events (c : Config) : list event :=
  omap call_event (EagerModuleSet c) ++
  findtable_event c :: omap setfield_event (LazyModuleSet c).

(** The state an outcome carries, and the events a run added. *)
Definition final (o : outcome) : option lua_State :=
  match o with
  | Returned L | Raised L => Some L
  | Fault => None
  end.

Definition new_events (L L' : lua_State) : list event :=
  drop (length (trace L)) (trace L').

(** Registering one lazy descriptor in the table [r]. *)
Definition register_lazy (r : nat) (st : Store) (lib : luaL_Reg) : Store :=
  match name lib, func lib with
  | Some n, Some f => tab_set st (HeapTab r) n (TFunc f)
  | _, _ => st
  end.

(** The table [luaL_findtable] ends up with for the registry key "_PRELOAD",
    and the store it leaves: the table already there, or a new one. *)
Definition find_preload (st : Store) : option (nat * Store) :=
  match registry st !! "_PRELOAD" with
  | None | Some TNil =>
      let r := new_ref st in
      Some (r, tab_set (new_table r st) RegistryTab "_PRELOAD" (TTab r))
  | Some (TTab r) => Some (r, st)
  | Some _ => None
  end.

(** The call of a module's opener, as the first loop makes it. *)
Definition module_call (m : module) : event :=
  EvCall (module_func m) [TStr (module_name m)] 0.

(** The registration of a module's opener, as the second loop makes it. *)
Definition module_setfield (m : module) : event :=
  EvSetField (-2) (module_name m) (TFunc (module_func m)).

(** What an entry point leaves behind once its result values are dropped:
    the store, and whether it returned ([inl]) or raised ([inr]). *)
Definition call_effect (r : call_result) : Store + Store :=
  match r with
  | CallReturns st _ => inl st
  | CallRaises st => inr st
  end.

(** As [stub_open], but the openers return no value. *)
Definition stub_open_silent (f : lua_CFunction) (args : list TValue) (st : Store)
  : call_result :=
  match stub_open f args st with
  | CallReturns st' _ => CallReturns st' []
  | CallRaises st' => CallRaises st'
  end.

(** A state whose registry already holds a preload table, with one entry a
    host put there. *)
Definition preloaded_state : lua_State :=
  {| stack := [];
     store := {| globals := ∅;
                 registry := {["_PRELOAD" := TTab 7%nat]};
                 tables := {[7%nat := {["socket" := TStr "loader"]}]} |};
     trace := [] |}.

(** The eager pass as the spec words it (4.2, step 1), to compare the first
    loop of [luaL_openlibs] with: for each descriptor in order, invoke its
    entry point with the descriptor's name as the one argument, on the store
    the descriptors before it left, and ignore what it returns; the first
    failure ends the pass. [inl] is the store when every entry point
    returned, [inr] the store the failing one left. A record without an entry
    point has nothing to invoke. *)
Fixpoint eager_pass_spec
    (entry_point : lua_CFunction -> list TValue -> Store -> call_result)
    (libs : list luaL_Reg) (st : Store) : Store + Store :=
  match libs with
  | [] => inl st
  | lib :: libs' =>
      match func lib with
      | None => eager_pass_spec entry_point libs' st
      | Some f =>
          match entry_point f [name_value (name lib)] st with
          | CallReturns st' _ => eager_pass_spec entry_point libs' st'
          | CallRaises st' => inr st'
          end
      end
  end.

(** What [luaL_openlibs] does after its first loop (lines 67 to 73). *)
Definition lazy_phase (c : Config) (L : lua_State) : outcome :=
  do L <- luaL_findtable LUA_REGISTRYINDEX "_PRELOAD"
            (array_size (lj_lib_preload c) - 1) L;
  do L <- luaL_openlibs_preload (lj_lib_preload c) L;
  Returned (lua_pop 1 L).

Definition has_func (lib : luaL_Reg) : Prop := is_Some (func lib).
Definition has_name (lib : luaL_Reg) : Prop := is_Some (name lib).

(** * Properties of the registry *)

Lemma descriptors_sentinel (libs rest : list luaL_Reg) :
  Forall has_func libs -> descriptors (libs ++ sentinel :: rest) = libs.
Proof.
  induction 1 as [|lib libs [f Hf] _ IH]; simpl; [done|].
  by rewrite Hf, IH.
Qed.

Lemma ifndef_filter (c : Config) (b : bool) (m : module) (ms : list module)
    (l : list luaL_Reg) :
  disabled c m = b ->
  l = module_reg <$> filter (enabled c) ms ->
  ifndef b [module_reg m] ++ l = module_reg <$> filter (enabled c) (m :: ms).
Proof.
  intros Hb ->. rewrite filter_cons.
  destruct (decide (enabled c m)) as [He|He]; unfold enabled in He;
    rewrite Hb in He; destruct b; done.
Qed.

Lemma lj_lib_load_modules (c : Config) :
  lj_lib_load c = (module_reg <$> filter (enabled c) eager_order) ++ [sentinel].
Proof.
  unfold lj_lib_load, eager_order.
  rewrite !(assoc_L (++)). f_equal. rewrite <- !(assoc_L (++)).
  rewrite <- (app_nil_r (ifndef (WB_DISABLE_LIB_JIT c) _)).
  apply (ifndef_filter c _ Base); [done|].
  apply (ifndef_filter c _ Package); [done|].
  apply (ifndef_filter c _ Table); [done|].
  apply (ifndef_filter c _ Io); [done|].
  apply (ifndef_filter c _ Os); [done|].
  apply (ifndef_filter c _ String_); [done|].
  apply (ifndef_filter c _ Math); [done|].
  apply (ifndef_filter c _ Debug); [done|].
  apply (ifndef_filter c _ Bit); [done|].
  apply (ifndef_filter c _ Jit); done.
Qed.

Lemma lj_lib_preload_modules (c : Config) :
  lj_lib_preload c = (module_reg <$> filter (enabled c) lazy_order) ++ [sentinel].
Proof.
  unfold lj_lib_preload, lazy_order. f_equal.
  rewrite filter_cons.
  destruct (decide (enabled c Ffi)) as [He|He]; unfold enabled in He;
    simpl in He; destruct (LJ_HASFFI c); done.
Qed.

Lemma module_reg_has_func (ms : list module) : Forall has_func (module_reg <$> ms).
Proof. apply Forall_fmap, Forall_true. intros m. by eexists. Qed.

Lemma module_reg_has_name (ms : list module) : Forall has_name (module_reg <$> ms).
Proof. apply Forall_fmap, Forall_true. intros m. by eexists. Qed.

Lemma EagerModuleSet_modules (c : Config) :
  EagerModuleSet c = module_reg <$> filter (enabled c) eager_order.
Proof.
  unfold EagerModuleSet. rewrite lj_lib_load_modules.
  apply descriptors_sentinel, module_reg_has_func.
Qed.

Lemma LazyModuleSet_modules (c : Config) :
  LazyModuleSet c = module_reg <$> filter (enabled c) lazy_order.
Proof.
  unfold LazyModuleSet. rewrite lj_lib_preload_modules.
  apply descriptors_sentinel, module_reg_has_func.
Qed.

Lemma EagerModuleSet_has_func (c : Config) : Forall has_func (EagerModuleSet c).
Proof. rewrite EagerModuleSet_modules. apply module_reg_has_func. Qed.

Lemma LazyModuleSet_has_func (c : Config) : Forall has_func (LazyModuleSet c).
Proof. rewrite LazyModuleSet_modules. apply module_reg_has_func. Qed.

Lemma LazyModuleSet_has_name (c : Config) : Forall has_name (LazyModuleSet c).
Proof. rewrite LazyModuleSet_modules. apply module_reg_has_name. Qed.

Lemma lj_lib_load_sentinel (c : Config) :
  lj_lib_load c = EagerModuleSet c ++ [sentinel].
Proof. by rewrite EagerModuleSet_modules, lj_lib_load_modules. Qed.

Lemma lj_lib_preload_sentinel (c : Config) :
  lj_lib_preload c = LazyModuleSet c ++ [sentinel].
Proof. by rewrite LazyModuleSet_modules, lj_lib_preload_modules. Qed.

#[global] Instance module_name_inj : Inj (=) (=) module_name.
Proof. intros m1 m2 H. destruct m1, m2; first [reflexivity | discriminate H]. Qed.

#[global] Instance module_func_inj : Inj (=) (=) module_func.
Proof. intros m1 m2 H. destruct m1, m2; first [reflexivity | discriminate H]. Qed.

Lemma elem_of_EagerModuleSet (c : Config) (lib : luaL_Reg) :
  lib ∈ EagerModuleSet c <->
  exists m, lib = module_reg m /\ enabled c m /\ m ∈ eager_order.
Proof.
  rewrite EagerModuleSet_modules, list_elem_of_fmap.
  by setoid_rewrite list_elem_of_filter.
Qed.

Lemma elem_of_LazyModuleSet (c : Config) (lib : luaL_Reg) :
  lib ∈ LazyModuleSet c <->
  exists m, lib = module_reg m /\ enabled c m /\ m ∈ lazy_order.
Proof.
  rewrite LazyModuleSet_modules, list_elem_of_fmap.
  by setoid_rewrite list_elem_of_filter.
Qed.

Lemma elem_of_names (libs : list luaL_Reg) (n : string) :
  n ∈ names libs <-> exists lib, lib ∈ libs /\ name lib = Some n.
Proof. unfold names. apply list_elem_of_omap. Qed.

Lemma elem_of_funcs (libs : list luaL_Reg) (f : lua_CFunction) :
  f ∈ funcs libs <-> exists lib, lib ∈ libs /\ func lib = Some f.
Proof. unfold funcs. apply list_elem_of_omap. Qed.

Lemma szhint_LazyModuleSet (c : Config) :
  array_size (lj_lib_preload c) - 1 = Z.of_nat (length (LazyModuleSet c)).
Proof.
  unfold array_size. rewrite lj_lib_preload_sentinel, length_app. simpl. lia.
Qed.

Lemma omap_call_event_modules (ms : list module) :
  omap call_event (module_reg <$> ms) = module_call <$> ms.
Proof. induction ms as [|m ms IH]; [done|]. simpl. f_equal. apply IH. Qed.

Lemma omap_setfield_event_modules (ms : list module) :
  omap setfield_event (module_reg <$> ms) = module_setfield <$> ms.
Proof. induction ms as [|m ms IH]; [done|]. simpl. f_equal. apply IH. Qed.

Lemma installer_events_modules (c : Config) :
  installer_events c =
  (module_call <$> filter (enabled c) eager_order) ++
  findtable_event c :: (module_setfield <$> filter (enabled c) lazy_order).
Proof.
  unfold installer_events.
  by rewrite EagerModuleSet_modules, LazyModuleSet_modules,
    omap_call_event_modules, omap_setfield_event_modules.
Qed.

Lemma elem_of_installer_events (c : Config) (e : event) :
  e ∈ installer_events c <->
  (exists m, e = module_call m /\ enabled c m /\ m ∈ eager_order) \/
  e = findtable_event c \/
  (exists m, e = module_setfield m /\ enabled c m /\ m ∈ lazy_order).
Proof.
  rewrite installer_events_modules, elem_of_app, elem_of_cons,
    !list_elem_of_fmap.
  by setoid_rewrite list_elem_of_filter.
Qed.

Lemma find_preload_slot (st st2 : Store) (r : nat) :
  find_preload st = Some (r, st2) ->
  registry st2 !! "_PRELOAD" = Some (TTab r) /\ globals st2 = globals st.
Proof.
  unfold find_preload. intros H.
  destruct (registry st !! "_PRELOAD") as [[| | |r']|] eqn:Hreg;
    simplify_eq; simpl; unfold field_set; simpl;
    by rewrite ?lookup_insert_eq.
Qed.

Lemma register_lazy_frame (r : nat) (libs : list luaL_Reg) (st : Store) :
  globals (foldl (register_lazy r) st libs) = globals st /\
  registry (foldl (register_lazy r) st libs) = registry st.
Proof.
  revert st. induction libs as [|lib libs IH]; intros st; simpl; [done|].
  destruct (IH (register_lazy r st lib)) as [-> ->].
  unfold register_lazy. by destruct (name lib), (func lib).
Qed.

Lemma Ffi_not_eager : Ffi ∉ eager_order.
Proof. compute_done. Qed.

Lemma Base_not_later : Base ∉ tail eager_order.
Proof. compute_done. Qed.

Lemma LazyModuleSet_cases (c : Config) :
  LazyModuleSet c = [] \/ LazyModuleSet c = [module_reg Ffi].
Proof.
  rewrite LazyModuleSet_modules. unfold lazy_order. rewrite filter_cons.
  destruct (decide (enabled c Ffi)); auto.
Qed.

Lemma stub_open_keeps_other_global (f : lua_CFunction) (n k : string)
    (st st' : Store) (res : list TValue) :
  k <> "_G" -> k <> n ->
  stub_open f [TStr n] st = CallReturns st' res ->
  globals st' !! k = globals st !! k.
Proof.
  intros HG Hn [= <- _]. simpl. unfold field_set. simpl.
  rewrite lookup_insert_ne; [done|]. by case_decide.
Qed.

(** * Properties of the installer *)

Section InstallerProperties.

Variable entry_point : lua_CFunction -> list TValue -> Store -> call_result.

Local Abbreviation lua_call := (lua_call entry_point).
Local Abbreviation luaL_openlibs_load := (luaL_openlibs_load entry_point).
Local Abbreviation luaL_openlibs := (luaL_openlibs entry_point).

(** One round of the first loop: two pushes and a call that takes both
    values off again and keeps no result. *)
Lemma eager_round (f : lua_CFunction) (n : option string) (L : lua_State) :
  lua_call 1 0 (lua_pushstring n (lua_pushcfunction f L)) =
  let tr := trace L ++ [EvCall f [name_value n] 0] in
  match entry_point f [name_value n] (store L) with
  | CallReturns st _ => Returned {| stack := stack L; store := st; trace := tr |}
  | CallRaises st => Raised {| stack := stack L; store := st; trace := tr |}
  end.
Proof.
  unfold lua_call, adjust_results. simpl.
  destruct (entry_point _ _ _); rewrite ?resize_0; reflexivity.
Qed.

Lemma load_loop_spec (libs rest : list luaL_Reg) (L : lua_State) :
  Forall has_func libs ->
  match luaL_openlibs_load (libs ++ sentinel :: rest) L with
  | Returned L' =>
      stack L' = stack L /\ trace L' = trace L ++ omap call_event libs
  | Raised L' =>
      exists k, (k <= length (omap call_event libs))%nat /\
                trace L' = trace L ++ take k (omap call_event libs)
  | Fault => False
  end.
Proof.
  intros Hlibs. revert L.
  induction Hlibs as [|lib libs [f Hf] _ IH]; intros L; simpl.
  - by rewrite app_nil_r.
  - assert (call_event lib = Some (EvCall f [name_value (name lib)] 0)) as Hce
      by (unfold call_event; by rewrite Hf).
    rewrite Hf, eager_round, Hce. simpl.
    destruct (entry_point _ _ _) as [st res|st]; simpl.
    + specialize (IH {| stack := stack L; store := st;
                        trace := trace L ++ [EvCall f [name_value (name lib)] 0] |}).
      destruct (luaL_openlibs_load _ _) as [L'|L'|]; simpl in IH; [| |done].
      * destruct IH as [Hs Ht]. by rewrite Hs, Ht, <- app_assoc.
      * destruct IH as (k & Hk & Ht). exists (S k). simpl.
        split; [apply le_n_S, Hk|]. by rewrite Ht, <- app_assoc.
    + exists 1%nat. simpl. split; [lia|done].
Qed.

Lemma load_loop_cons (n : string) (f : lua_CFunction) (rest : list luaL_Reg)
    (L : lua_State) :
  luaL_openlibs_load (reg n f :: rest) L =
  do L1 <- lua_call 1 0 (lua_pushstring (Some n) (lua_pushcfunction f L));
  luaL_openlibs_load rest L1.
Proof. reflexivity. Qed.

(** The first loop over a prefix of the array, then over the rest. *)
Lemma load_loop_app (pre rest : list luaL_Reg) (L : lua_State) :
  Forall has_func pre ->
  luaL_openlibs_load (pre ++ rest) L =
  do L1 <- luaL_openlibs_load (pre ++ [sentinel]) L; luaL_openlibs_load rest L1.
Proof.
  intros Hpre. revert L.
  induction Hpre as [|lib pre [f Hf] _ IH]; intros L; simpl; [done|].
  rewrite Hf. destruct (lua_call _ _ _); simpl; [apply IH|done..].
Qed.

Lemma preload_loop_spec (libs rest : list luaL_Reg) (r : nat)
    (below : list TValue) (st : Store) (tr : list event) :
  Forall has_func libs -> Forall has_name libs ->
  luaL_openlibs_preload (libs ++ sentinel :: rest)
    {| stack := TTab r :: below; store := st; trace := tr |} =
  Returned {| stack := TTab r :: below;
              store := foldl (register_lazy r) st libs;
              trace := tr ++ omap setfield_event libs |}.
Proof.
  intros Hf Hn. revert st tr.
  induction Hf as [|lib libs [f Hf] _ IH]; intros st tr; simpl.
  - by rewrite app_nil_r.
  - apply Forall_cons in Hn as [[n Hn] Hns].
    rewrite Hf, Hn. unfold lua_setfield, setfield_event, register_lazy.
    rewrite Hf, Hn. simpl. rewrite IH by done.
    by rewrite <- app_assoc.
Qed.

Lemma findtable_registry (fname : string) (szhint : Z) (L : lua_State) :
  luaL_findtable LUA_REGISTRYINDEX fname szhint L =
  let tr := trace L ++ [EvFindTable LUA_REGISTRYINDEX fname szhint] in
  match registry (store L) !! fname with
  | None | Some TNil =>
      let r := new_ref (store L) in
      Returned {| stack := TTab r :: stack L;
                  store := tab_set (new_table r (store L)) RegistryTab fname (TTab r);
                  trace := tr |}
  | Some (TTab r) =>
      Returned {| stack := TTab r :: stack L; store := store L; trace := tr |}
  | Some _ =>
      Raised {| stack := stack L; store := store L; trace := tr |}
  end.
Proof.
  unfold luaL_findtable. simpl.
  destruct (registry (store L) !! fname) as [[]|]; reflexivity.
Qed.

Lemma luaL_openlibs_unfold (c : Config) (L : lua_State) :
  luaL_openlibs c L =
  do L1 <- luaL_openlibs_load (EagerModuleSet c ++ [sentinel]) L;
  do L2 <- luaL_findtable LUA_REGISTRYINDEX "_PRELOAD"
             (Z.of_nat (length (LazyModuleSet c))) L1;
  do L3 <- luaL_openlibs_preload (LazyModuleSet c ++ [sentinel]) L2;
  Returned (lua_pop 1 L3).
Proof.
  unfold luaL_openlibs.
  by rewrite szhint_LazyModuleSet, lj_lib_load_sentinel, lj_lib_preload_sentinel.
Qed.

(** Every run ends with the events of the installer, or with some of the
    first of them when an error was raised; no run goes wrong. *)
Lemma luaL_openlibs_spec (c : Config) (L : lua_State) :
  match luaL_openlibs c L with
  | Returned L' =>
      stack L' = stack L /\ trace L' = trace L ++ installer_events c
  | Raised L' =>
      exists k, trace L' = trace L ++ take k (installer_events c)
  | Fault => False
  end.
Proof.
  rewrite luaL_openlibs_unfold. unfold installer_events.
  pose proof (load_loop_spec (EagerModuleSet c) [] L
                (EagerModuleSet_has_func c)) as Hload.
  set (calls := omap call_event (EagerModuleSet c)) in *.
  destruct (luaL_openlibs_load _ L) as [L1|L1|]; simpl; [| |done].
  - destruct Hload as [Hs Ht]. rewrite findtable_registry. simpl.
    assert (forall r below st tr,
      luaL_openlibs_preload (LazyModuleSet c ++ [sentinel])
        {| stack := TTab r :: below; store := st; trace := tr |} =
      Returned {| stack := TTab r :: below;
                  store := foldl (register_lazy r) st (LazyModuleSet c);
                  trace := tr ++ omap setfield_event (LazyModuleSet c) |})
      as Hpre.
    { intros. apply preload_loop_spec;
        [apply LazyModuleSet_has_func | apply LazyModuleSet_has_name]. }
    destruct (registry (store L1) !! "_PRELOAD") as [[| | |r]|]; simpl;
      rewrite ?Hpre; simpl; rewrite ?Hs, ?Ht, <- ?app_assoc; try done.
    all: exists (length calls + 1)%nat; by rewrite take_app_add.
  - destruct Hload as (k & Hk & Ht). exists k.
    by rewrite Ht, take_app_le.
Qed.

Lemma preload_loop_LazyModuleSet (c : Config) (r : nat) (below : list TValue)
    (st : Store) (tr : list event) :
  luaL_openlibs_preload (LazyModuleSet c ++ [sentinel])
    {| stack := TTab r :: below; store := st; trace := tr |} =
  Returned {| stack := TTab r :: below;
              store := foldl (register_lazy r) st (LazyModuleSet c);
              trace := tr ++ omap setfield_event (LazyModuleSet c) |}.
Proof.
  apply preload_loop_spec;
    [apply LazyModuleSet_has_func | apply LazyModuleSet_has_name].
Qed.

(** A run that returns went through the first loop, found or created the
    preload table, and registered the lazy descriptors in it. *)
Lemma luaL_openlibs_returned (c : Config) (L L' : lua_State) :
  luaL_openlibs c L = Returned L' ->
  exists L1 r st2,
    luaL_openlibs_load (lj_lib_load c) L = Returned L1 /\
    find_preload (store L1) = Some (r, st2) /\
    store L' = foldl (register_lazy r) st2 (LazyModuleSet c).
Proof.
  rewrite luaL_openlibs_unfold, lj_lib_load_sentinel.
  destruct (luaL_openlibs_load _ L) as [L1|L1|]; simpl; [|done..].
  rewrite findtable_registry. unfold find_preload. simpl.
  destruct (registry (store L1) !! "_PRELOAD") as [[| | |r]|] eqn:Hreg; simpl;
    rewrite ?preload_loop_LazyModuleSet; simpl; intros H; simplify_eq;
    eexists L1, _, _; rewrite Hreg; done.
Qed.

(** The first loop keeps whatever property of the store the openers it
    calls keep. *)
Lemma load_loop_invariant (P : Store -> Prop) (libs rest : list luaL_Reg)
    (L L' : lua_State) :
  (forall lib f st st' res,
      lib ∈ libs -> func lib = Some f ->
      entry_point f [name_value (name lib)] st = CallReturns st' res ->
      P st -> P st') ->
  Forall has_func libs ->
  luaL_openlibs_load (libs ++ sentinel :: rest) L = Returned L' ->
  P (store L) -> P (store L').
Proof.
  intros Hep Hlibs. revert L.
  induction Hlibs as [|lib libs [f Hf] _ IH]; intros L; simpl.
  - by intros [= ->].
  - rewrite Hf, eager_round. simpl.
    destruct (entry_point _ _ _) as [st res|st] eqn:Hcall; simpl; [|done].
    intros Hrun HP. eapply IH in Hrun; [done| |].
    + intros lib' f' st1 st1' res' Hin. apply Hep. by right.
    + simpl. eapply Hep; [by left|done..].
Qed.

Lemma eager_pass_spec_app (pre post : list luaL_Reg) (st : Store) :
  eager_pass_spec entry_point (pre ++ post) st =
  match eager_pass_spec entry_point pre st with
  | inl st1 => eager_pass_spec entry_point post st1
  | inr st1 => inr st1
  end.
Proof.
  revert st. induction pre as [|lib pre IH]; intros st; simpl; [done|].
  destruct (func lib) as [f|]; [|apply IH].
  destruct (entry_point _ _ _); [apply IH|done].
Qed.

(** The pass returns over a list only if it returns over the part before a
    descriptor, the opener of that descriptor returns on the store reached,
    and the pass returns over the rest from the store the opener left. *)
Lemma eager_pass_spec_middle (pre post : list luaL_Reg) (n : string)
    (f : lua_CFunction) (st st2 : Store) :
  eager_pass_spec entry_point (pre ++ reg n f :: post) st = inl st2 ->
  exists st0 st1 res,
    eager_pass_spec entry_point pre st = inl st0 /\
    entry_point f [TStr n] st0 = CallReturns st1 res /\
    eager_pass_spec entry_point post st1 = inl st2.
Proof.
  rewrite eager_pass_spec_app.
  destruct (eager_pass_spec entry_point pre st) as [st0|]; [|done]. simpl.
  destruct (entry_point f [TStr n] st0) as [st1 res|] eqn:Hcall; [|done].
  intros Hpost. by exists st0, st1, res.
Qed.

(** The first loop does what the spec's eager pass does, on the stack of
    the caller. *)
Lemma load_loop_eager_pass (libs rest : list luaL_Reg) (L : lua_State) :
  Forall has_func libs ->
  match eager_pass_spec entry_point libs (store L) with
  | inl st1 =>
      luaL_openlibs_load (libs ++ sentinel :: rest) L =
      Returned {| stack := stack L; store := st1;
                  trace := trace L ++ omap call_event libs |}
  | inr st =>
      exists k, (1 <= k <= length libs)%nat /\
        luaL_openlibs_load (libs ++ sentinel :: rest) L =
        Raised {| stack := stack L; store := st;
                  trace := trace L ++ take k (omap call_event libs) |}
  end.
Proof.
  intros Hlibs. revert L.
  induction Hlibs as [|lib libs [f Hf] _ IH]; intros L; simpl.
  - rewrite app_nil_r. by destruct L.
  - assert (call_event lib = Some (EvCall f [name_value (name lib)] 0)) as Hce
      by (unfold call_event; by rewrite Hf).
    rewrite Hf, eager_round, Hce. simpl.
    destruct (entry_point _ _ _) as [st' res|st']; simpl.
    + specialize (IH {| stack := stack L; store := st';
                        trace := trace L ++ [EvCall f [name_value (name lib)] 0] |}).
      simpl in IH.
      destruct (eager_pass_spec entry_point libs st') as [st1|st].
      * by rewrite IH, <- app_assoc.
      * destruct IH as (k & Hk & ->). exists (S k). split; [lia|].
        by rewrite <- app_assoc.
    + exists 1%nat. split; [lia|done].
Qed.

(** The installer is the spec's eager pass followed by the lazy phase. *)
Lemma luaL_openlibs_eager_pass (c : Config) (L : lua_State) :
  match eager_pass_spec entry_point (EagerModuleSet c) (store L) with
  | inl st1 =>
      luaL_openlibs c L =
      lazy_phase c {| stack := stack L; store := st1;
                      trace := trace L ++ omap call_event (EagerModuleSet c) |}
  | inr st =>
      exists k, (1 <= k <= length (EagerModuleSet c))%nat /\
        luaL_openlibs c L =
        Raised {| stack := stack L; store := st;
                  trace := trace L ++
                           take k (omap call_event (EagerModuleSet c)) |}
  end.
Proof.
  pose proof (load_loop_eager_pass (EagerModuleSet c) [] L
                (EagerModuleSet_has_func c)) as Hload.
  unfold luaL_openlibs. rewrite lj_lib_load_sentinel.
  destruct (eager_pass_spec entry_point (EagerModuleSet c) (store L)) as [st1|st].
  - by rewrite Hload.
  - destruct Hload as (k & Hk & Hload). exists k. by rewrite Hload.
Qed.

(** A run that returns went through the whole eager pass, and its globals
    are those the pass left. *)
Lemma returned_eager_pass (c : Config) (L L' : lua_State) :
  luaL_openlibs c L = Returned L' ->
  exists st1,
    eager_pass_spec entry_point (EagerModuleSet c) (store L) = inl st1 /\
    globals (store L') = globals st1.
Proof.
  intros Hrun.
  destruct (luaL_openlibs_returned _ _ _ Hrun)
    as (L1 & r & st2 & Hload & Hfind & Hst).
  apply find_preload_slot in Hfind as [_ Hglob].
  destruct (register_lazy_frame r (LazyModuleSet c) st2) as [Hg _].
  pose proof (load_loop_eager_pass (EagerModuleSet c) [] L
                (EagerModuleSet_has_func c)) as Hpass.
  rewrite lj_lib_load_sentinel in Hload.
  destruct (eager_pass_spec entry_point (EagerModuleSet c) (store L)) as [st1|st].
  - exists st1. split; [done|]. rewrite Hpass in Hload.
    injection Hload as <-. by rewrite Hst, Hg, Hglob.
  - destruct Hpass as (k & _ & Hpass). by rewrite Hpass in Hload.
Qed.

(** A run that returns has stored every pair of the LazyModuleSet in the
    table "_PRELOAD" names. *)
Lemma lazy_entry_stored (c : Config) (L L' : lua_State) (n : string)
    (f : lua_CFunction) :
  luaL_openlibs c L = Returned L' ->
  reg n f ∈ LazyModuleSet c ->
  exists r, registry (store L') !! "_PRELOAD" = Some (TTab r) /\
            tables (store L') !! r ≫= (.!! n) = Some (TFunc f).
Proof.
  intros Hrun Hin.
  destruct (luaL_openlibs_returned _ _ _ Hrun)
    as (L1 & r & st2 & _ & Hfind & Hst).
  apply find_preload_slot in Hfind as [Hreg _].
  destruct (register_lazy_frame r (LazyModuleSet c) st2) as [_ Hr].
  exists r. rewrite Hst, Hr. split; [done|].
  destruct (LazyModuleSet_cases c) as [Hl|Hl]; rewrite Hl in Hin |- *.
  - by apply elem_of_nil in Hin.
  - apply list_elem_of_singleton in Hin. injection Hin as -> ->.
    simpl. rewrite lookup_insert_eq. simpl.
    unfold field_set. simpl. by rewrite lookup_insert_eq.
Qed.

Lemma new_events_returned (c : Config) (L L' : lua_State) :
  luaL_openlibs c L = Returned L' -> new_events L L' = installer_events c.
Proof.
  intros Hrun. pose proof (luaL_openlibs_spec c L) as Hspec.
  rewrite Hrun in Hspec. destruct Hspec as [_ Ht].
  unfold new_events. by rewrite Ht, drop_app_length.
Qed.

Lemma new_events_prefix (c : Config) (L L' : lua_State) :
  final (luaL_openlibs c L) = Some L' ->
  exists k, new_events L L' = take k (installer_events c).
Proof.
  intros Hrun. pose proof (luaL_openlibs_spec c L) as Hspec.
  unfold new_events.
  destruct (luaL_openlibs c L) as [L2|L2|]; simplify_eq/=.
  - destruct Hspec as [_ Ht]. exists (length (installer_events c)).
    by rewrite Ht, drop_app_length, take_ge.
  - destruct Hspec as [k Ht]. exists k. by rewrite Ht, drop_app_length.
Qed.

Lemma new_events_subseteq (c : Config) (L L' : lua_State) (e : event) :
  final (luaL_openlibs c L) = Some L' ->
  e ∈ new_events L L' -> e ∈ installer_events c.
Proof.
  intros Hrun He. apply new_events_prefix in Hrun as [k Hk].
  rewrite Hk in He. by eapply subseteq_take.
Qed.

(** C1: on every build configuration and from every state, the installer
    first makes one call per descriptor of the EagerModuleSet, in the declared
    order, each with the descriptor's name string as its one argument (the
    empty string for the base library) and asking for zero results; only then
    come the lookup of the preload table and the lazy registrations. A run
    that returns has made all of these events and left the stack of the
    caller; a run ended by an error has made some of the first of them; no
    run goes wrong. The calls are made: the first loop is the spec's eager
    pass, each entry point applied to its name on the store its predecessors
    left and its results dropped. When all return, the installer continues
    with the lazy phase on the store the pass built and the stack of the
    caller; when one raises, the installer ends there with the store it
    left. *)
Theorem eager_modules_called_in_order (c : Config) (L : lua_State) :
  Forall2 (fun lib e => exists n f, lib = reg n f /\ e = EvCall f [TStr n] 0)
    (EagerModuleSet c) (omap call_event (EagerModuleSet c)) /\
  match luaL_openlibs c L with
  | Returned L' =>
      stack L' = stack L /\
      trace L' =
        trace L ++ omap call_event (EagerModuleSet c) ++
        findtable_event c :: omap setfield_event (LazyModuleSet c)
  | Raised L' =>
      exists k,
        trace L' =
          trace L ++
          take k (omap call_event (EagerModuleSet c) ++
                  findtable_event c :: omap setfield_event (LazyModuleSet c))
  | Fault => False
  end /\
  match eager_pass_spec entry_point (EagerModuleSet c) (store L) with
  | inl st1 =>
      luaL_openlibs c L =
      lazy_phase c {| stack := stack L; store := st1;
                      trace := trace L ++ omap call_event (EagerModuleSet c) |}
  | inr st =>
      exists k, (1 <= k <= length (EagerModuleSet c))%nat /\
        luaL_openlibs c L =
        Raised {| stack := stack L; store := st;
                  trace := trace L ++
                           take k (omap call_event (EagerModuleSet c)) |}
  end.
Proof.
  split; [|split].
  - rewrite EagerModuleSet_modules, omap_call_event_modules.
    apply Forall2_fmap, Forall_Forall2_diag, Forall_true.
    intros m. by exists (module_name m), (module_func m).
  - pose proof (luaL_openlibs_spec c L) as Hspec.
    by destruct (luaL_openlibs c L) as [L'|L'|].
  - apply luaL_openlibs_eager_pass.
Qed.

(** C9: a run of the installer that returns leaves the value stack as it
    found it: same height, same values. *)
Theorem installer_preserves_stack (c : Config) (L L' : lua_State) :
  luaL_openlibs c L = Returned L' ->
  stack L' = stack L /\ length (stack L') = length (stack L).
Proof.
  intros Hrun. pose proof (luaL_openlibs_spec c L) as Hspec.
  rewrite Hrun in Hspec. destruct Hspec as [Hs _]. by rewrite Hs.
Qed.

(** C2: when the installer returns, every (name, entry point) pair of the
    LazyModuleSet is stored in the table held under "_PRELOAD" in the
    registry, the run has made no call of that entry point, and the name is
    not made a global: the globals are those the eager pass left, and where
    no eager opener binds the name, its global binding is what it was on
    entry. *)
Theorem lazy_modules_registered_not_run (c : Config) (L L' : lua_State)
    (n : string) (f : lua_CFunction) :
  luaL_openlibs c L = Returned L' ->
  reg n f ∈ LazyModuleSet c ->
  (exists r, registry (store L') !! "_PRELOAD" = Some (TTab r) /\
             tables (store L') !! r ≫= (.!! n) = Some (TFunc f)) /\
  (forall args nres, EvCall f args nres ∉ new_events L L') /\
  (exists L1, luaL_openlibs_load (lj_lib_load c) L = Returned L1 /\
              globals (store L') = globals (store L1)) /\
  ((forall lib g st st' res,
       lib ∈ EagerModuleSet c -> func lib = Some g ->
       entry_point g [name_value (name lib)] st = CallReturns st' res ->
       globals st' !! n = globals st !! n) ->
   globals (store L') !! n = globals (store L) !! n).
Proof.
  intros Hrun Hin.
  destruct (luaL_openlibs_returned _ _ _ Hrun) as (L1 & r & st2 & Hload & Hfind & Hst).
  apply find_preload_slot in Hfind as [Hreg Hglob].
  destruct (register_lazy_frame r (LazyModuleSet c) st2) as [Hg Hr].
  assert (n = LUA_FFILIBNAME /\ f = luaopen_ffi /\
          LazyModuleSet c = [module_reg Ffi]) as (-> & -> & Hlazy).
  { destruct (LazyModuleSet_cases c) as [Hl|Hl]; rewrite Hl in Hin.
    - by apply elem_of_nil in Hin.
    - apply list_elem_of_singleton in Hin. by injection Hin as -> ->. }
  split; [|split; [|split]].
  - exists r. rewrite Hst, Hr. split; [done|].
    rewrite Hlazy. simpl. rewrite lookup_insert_eq. simpl.
    unfold field_set. simpl. by rewrite lookup_insert_eq.
  - intros args nres He. rewrite (new_events_returned _ _ _ Hrun) in He.
    apply elem_of_installer_events in He
      as [(m & He & _ & Hm)|[He|(m & He & _)]]; [|done..].
    injection He as Hf _ _. apply (inj module_func Ffi m) in Hf as <-.
    by apply Ffi_not_eager in Hm.
  - exists L1. by rewrite Hst, Hg, Hglob.
  - intros Hframe. rewrite Hst, Hg, Hglob.
    rewrite lj_lib_load_sentinel in Hload.
    apply (load_loop_invariant
             (fun st => globals st !! LUA_FFILIBNAME =
                        globals (store L) !! LUA_FFILIBNAME)
             _ _ _ _) in Hload; [done| | |done].
    + intros lib g st st' res Hlib Hg' Hcall <-. by eapply Hframe.
    + apply EagerModuleSet_has_func.
Qed.

(** Closes a goal where an enabled module has the name or the opener of a
    disabled one. *)
Ltac same_module Hne H :=
  first [apply (inj module_name) in H | apply (inj module_func) in H];
  by eapply Hne.

(** C3: a module whose build switch disables it (for the FFI module, whose
    platform flag is off) has its descriptor, its name and its entry point
    in neither the EagerModuleSet nor the LazyModuleSet, and no run of the
    installer, however it ends, calls its entry point or registers an entry
    under its name. *)
Theorem disabled_module_absent (c : Config) (m : module) :
  disabled c m = true ->
  ((module_reg m ∉ EagerModuleSet c) /\ (module_reg m ∉ LazyModuleSet c)) /\
  ((module_name m ∉ names (EagerModuleSet c)) /\
   (module_name m ∉ names (LazyModuleSet c))) /\
  ((module_func m ∉ funcs (EagerModuleSet c)) /\
   (module_func m ∉ funcs (LazyModuleSet c))) /\
  (forall L L', final (luaL_openlibs c L) = Some L' ->
     (forall args nres, EvCall (module_func m) args nres ∉ new_events L L') /\
     (forall idx v, EvSetField idx (module_name m) v ∉ new_events L L')).
Proof.
  intros Hdis.
  assert (forall m', enabled c m' -> m' <> m) as Hne.
  { intros m' Hen ->. unfold enabled in Hen. congruence. }
  repeat split.
  - intros (m' & Heq & Hen & _)%elem_of_EagerModuleSet.
    injection Heq as Hn _. same_module Hne Hn.
  - intros (m' & Heq & Hen & _)%elem_of_LazyModuleSet.
    injection Heq as Hn _. same_module Hne Hn.
  - intros (lib & (m' & -> & Hen & _)%elem_of_EagerModuleSet & Hn)%elem_of_names.
    injection Hn as Hn. same_module Hne Hn.
  - intros (lib & (m' & -> & Hen & _)%elem_of_LazyModuleSet & Hn)%elem_of_names.
    injection Hn as Hn. same_module Hne Hn.
  - intros (lib & (m' & -> & Hen & _)%elem_of_EagerModuleSet & Hf)%elem_of_funcs.
    injection Hf as Hf. same_module Hne Hf.
  - intros (lib & (m' & -> & Hen & _)%elem_of_LazyModuleSet & Hf)%elem_of_funcs.
    injection Hf as Hf. same_module Hne Hf.
  - intros args nres He. eapply new_events_subseteq in He; [|done].
    apply elem_of_installer_events in He
      as [(m' & He & Hen & _)|[He|(m' & He & _)]]; [|done..].
    injection He as Hf _ _. same_module Hne Hf.
  - intros idx v He. eapply new_events_subseteq in He; [|done].
    apply elem_of_installer_events in He
      as [(m' & He & _)|[He|(m' & He & Hen & _)]]; [done..|].
    injection He as _ Hn _. same_module Hne Hn.
Qed.

(** C4: when the entry point of an eager module raises an error, after the
    entry points of the modules before it were run in order and returned, the
    installer ends with that error at once. The store is the one the failing
    entry point left when run on the store the modules before it built:
    nothing they installed is rolled back or cleaned up (when the failing one
    changed nothing, the store is exactly theirs). The only events are the
    calls up to and including the failing one: no later module is opened, the
    preload table is not looked up, nothing is registered. *)
Theorem eager_failure_propagates (c : Config) (pre post : list luaL_Reg)
    (n : string) (f : lua_CFunction) (L : lua_State) (st1 st : Store) :
  EagerModuleSet c = pre ++ reg n f :: post ->
  eager_pass_spec entry_point pre (store L) = inl st1 ->
  entry_point f [TStr n] st1 = CallRaises st ->
  luaL_openlibs c L =
  Raised {| stack := stack L; store := st;
            trace := trace L ++ omap call_event pre ++ [EvCall f [TStr n] 0] |} /\
  (st = st1 ->
   exists L', luaL_openlibs c L = Raised L' /\
              eager_pass_spec entry_point pre (store L) = inl (store L')).
Proof.
  intros Heager Hpre Hraise.
  pose proof (EagerModuleSet_has_func c) as Hfuncs.
  rewrite Heager in Hfuncs. apply Forall_app in Hfuncs as [Hfuncs _].
  pose proof (load_loop_eager_pass pre [] L Hfuncs) as Hpass.
  rewrite Hpre in Hpass.
  assert (luaL_openlibs c L =
          Raised {| stack := stack L; store := st;
                    trace := trace L ++ omap call_event pre ++
                             [EvCall f [TStr n] 0] |}) as Hrun.
  { unfold luaL_openlibs.
    rewrite lj_lib_load_sentinel, Heager, <- app_assoc.
    rewrite load_loop_app, Hpass by done. unfold and_then.
    rewrite <- app_comm_cons, load_loop_cons, eager_round.
    cbn [name_value store stack trace]. rewrite Hraise. cbv zeta.
    by rewrite <- app_assoc. }
  split; [done|]. intros ->. eexists. split; [done|]. by rewrite Hpre.
Qed.

(** C5: in every build configuration that has the base descriptor, it is
    the first of the EagerModuleSet and occurs nowhere else in it, and the
    first thing any run of the installer does is to call the base opener. *)
Theorem base_module_first (c : Config) :
  reg "" luaopen_base ∈ EagerModuleSet c ->
  head (EagerModuleSet c) = Some (reg "" luaopen_base) /\
  (forall i, EagerModuleSet c !! i = Some (reg "" luaopen_base) -> i = 0%nat) /\
  (forall L L' e, final (luaL_openlibs c L) = Some L' ->
     head (new_events L L') = Some e -> e = EvCall luaopen_base [TStr ""] 0).
Proof.
  intros (m & Heq & Hen & _)%elem_of_EagerModuleSet.
  injection Heq as Hn _. apply (inj module_name Base) in Hn as <-.
  assert (EagerModuleSet c =
          module_reg Base :: (module_reg <$> filter (enabled c) (tail eager_order)))
    as Heager.
  { rewrite EagerModuleSet_modules. unfold eager_order.
    rewrite filter_cons. by destruct (decide (enabled c Base)). }
  split; [by rewrite Heager|split].
  - intros [|i]; [done|]. rewrite Heager. simpl.
    intros Hi. apply list_elem_of_lookup_2 in Hi.
    apply list_elem_of_fmap in Hi as (m & Heq & Hm).
    injection Heq as Hn _. apply (inj module_name Base) in Hn as <-.
    apply list_elem_of_filter in Hm as [_ Hm]. by apply Base_not_later in Hm.
  - intros L L' e Hrun He. apply new_events_prefix in Hrun as [k Hk].
    rewrite Hk in He. unfold installer_events in He. rewrite Heager in He.
    destruct k; simpl in He; by simplify_eq.
Qed.

(** C7: the size hint the installer passes when it looks up "_PRELOAD" in
    the registry is the number of entries of the LazyModuleSet, the sentinel
    not counted: that is the value of the source's expression, every lookup
    event of a run carries it, and a run that returns has made the lookup. *)
Theorem preload_size_hint (c : Config) :
  array_size (lj_lib_preload c) - 1 = Z.of_nat (length (LazyModuleSet c)) /\
  (forall L L' idx fname sz,
     final (luaL_openlibs c L) = Some L' ->
     EvFindTable idx fname sz ∈ new_events L L' ->
     idx = LUA_REGISTRYINDEX /\ fname = "_PRELOAD" /\
     sz = Z.of_nat (length (LazyModuleSet c))) /\
  (forall L L',
     luaL_openlibs c L = Returned L' ->
     EvFindTable LUA_REGISTRYINDEX "_PRELOAD"
       (Z.of_nat (length (LazyModuleSet c))) ∈ new_events L L').
Proof.
  split; [apply szhint_LazyModuleSet|split].
  - intros L L' idx fname sz Hrun He.
    eapply new_events_subseteq in He; [|done].
    apply elem_of_installer_events in He
      as [(m & He & _)|[He|(m & He & _)]]; [done| |done].
    by injection He as -> -> ->.
  - intros L L' Hrun. rewrite (new_events_returned _ _ _ Hrun).
    apply elem_of_installer_events. right. by left.
Qed.

End InstallerProperties.

(** * Properties of the two sets *)

Lemma names_modules (ms : list module) :
  names (module_reg <$> ms) = module_name <$> ms.
Proof. induction ms as [|m ms IH]; [done|]. simpl. f_equal. apply IH. Qed.

Lemma EagerModuleSet_full :
  EagerModuleSet full_config = module_reg <$> eager_order.
Proof. reflexivity. Qed.

Lemma same_switches (c1 c2 : Config) :
  (forall m, disabled c1 m = disabled c2 m) -> c1 = c2.
Proof.
  intros H. destruct c1, c2.
  pose proof (H Base). pose proof (H Package). pose proof (H Table).
  pose proof (H Io). pose proof (H Os). pose proof (H String_).
  pose proof (H Math). pose proof (H Debug). pose proof (H Bit).
  pose proof (H Jit). pose proof (H Ffi) as Hffi.
  simpl in *.
  assert (LJ_HASFFI0 = LJ_HASFFI1) by (by destruct LJ_HASFFI0, LJ_HASFFI1).
  congruence.
Qed.

(** C6: in every build configuration, a name of the EagerModuleSet is not a
    name of the LazyModuleSet. *)
Theorem eager_lazy_names_disjoint (c : Config) (n : string) :
  n ∈ names (EagerModuleSet c) -> n ∉ names (LazyModuleSet c).
Proof.
  intros (lib1 & (m1 & -> & _ & Hm1)%elem_of_EagerModuleSet & Hn1)%elem_of_names.
  intros (lib2 & (m2 & -> & _ & Hm2)%elem_of_LazyModuleSet & Hn2)%elem_of_names.
  apply list_elem_of_singleton in Hm2 as ->.
  rewrite <- Hn2 in Hn1. injection Hn1 as Hn.
  apply (inj module_name m1 Ffi) in Hn as ->.
  by apply Ffi_not_eager in Hm1.
Qed.

(** C10: in every build configuration the EagerModuleSet is a subsequence
    of the full order base, package, table, io, os, string, math, debug, bit,
    jit (so are its names), and when the package library is in it, nothing
    but the base library comes before it. *)
Theorem eager_set_keeps_order (c : Config) :
  EagerModuleSet c `sublist_of` EagerModuleSet full_config /\
  names (EagerModuleSet full_config) =
    [""; "package"; "table"; "io"; "os"; "string"; "math"; "debug"; "bit"; "jit"] /\
  names (EagerModuleSet c) `sublist_of` names (EagerModuleSet full_config) /\
  (forall pre post,
     EagerModuleSet c = pre ++ reg "package" luaopen_package :: post ->
     pre = [] \/ pre = [reg "" luaopen_base]).
Proof.
  split; [|split; [done|split]].
  - rewrite EagerModuleSet_full, EagerModuleSet_modules.
    apply fmap_sublist, sublist_filter.
  - rewrite EagerModuleSet_full, EagerModuleSet_modules, !names_modules.
    apply fmap_sublist, sublist_filter.
  - intros pre post. rewrite EagerModuleSet_modules. unfold eager_order.
    set (later := [Table; Io; Os; String_; Math; Debug; Bit; Jit]).
    assert (module_reg Package ∉ module_reg <$> filter (enabled c) later)
      as Hlater.
    { intros (m & Hm & Hin)%list_elem_of_fmap.
      injection Hm as Hn _. apply (inj module_name Package m) in Hn as <-.
      apply list_elem_of_filter in Hin as [_ Hin]. revert Hin. compute_done. }
    rewrite !filter_cons.
    destruct (decide (enabled c Base)), (decide (enabled c Package));
      intros Heq; destruct pre as [|x [|y pre]]; simplify_eq/=; auto.
    all: exfalso; apply Hlater;
      match goal with H : _ <$> _ = _ |- _ => rewrite H end;
      rewrite ?elem_of_cons, ?elem_of_app, ?elem_of_cons; naive_solver.
Qed.

(** * The theorems at concrete inputs *)

(** The full build on a fresh state: ten calls, the lookup, one
    registration; the eager pass has bound the libraries' globals before the
    lazy phase starts. *)
Lemma eager_modules_called_in_order_full :
  exists st1 L',
    eager_pass_spec stub_open (EagerModuleSet full_config) (store fresh_state)
      = inl st1 /\
    globals st1 !! "math" = Some (TTab 6%nat) /\
    luaL_openlibs stub_open full_config fresh_state =
      lazy_phase full_config
        {| stack := [TStr "caller"]; store := st1;
           trace := omap call_event (EagerModuleSet full_config) |} /\
    luaL_openlibs stub_open full_config fresh_state = Returned L' /\
    stack L' = [TStr "caller"] /\
    trace L' =
      [EvCall luaopen_base [TStr ""] 0;
       EvCall luaopen_package [TStr "package"] 0;
       EvCall luaopen_table [TStr "table"] 0;
       EvCall luaopen_io [TStr "io"] 0;
       EvCall luaopen_os [TStr "os"] 0;
       EvCall luaopen_string [TStr "string"] 0;
       EvCall luaopen_math [TStr "math"] 0;
       EvCall luaopen_debug [TStr "debug"] 0;
       EvCall luaopen_bit [TStr "bit"] 0;
       EvCall luaopen_jit [TStr "jit"] 0;
       EvFindTable (-10000) "_PRELOAD" 1;
       EvSetField (-2) "ffi" (TFunc luaopen_ffi)].
Proof.
  pose proof (eager_modules_called_in_order stub_open full_config fresh_state)
    as (_ & Hrun & Hpass).
  vm_compute in Hrun. vm_compute in Hpass.
  eexists _, _. split; [vm_compute; reflexivity|].
  split; [vm_compute; reflexivity|].
  split; [vm_compute; exact Hpass|].
  split; [vm_compute; reflexivity|exact Hrun].
Defined.

Lemma lazy_modules_registered_not_run_full :
  exists L',
    luaL_openlibs stub_open full_config fresh_state = Returned L' /\
    (exists r, registry (store L') !! "_PRELOAD" = Some (TTab r) /\
               tables (store L') !! r ≫= (.!! "ffi") = Some (TFunc luaopen_ffi)) /\
    globals (store L') !! "ffi" = None.
Proof.
  eexists. split; [vm_compute; reflexivity|].
  match goal with |- context [store ?L'] =>
    destruct (lazy_modules_registered_not_run stub_open full_config fresh_state
                L' "ffi" luaopen_ffi) as (Hpre & _ & _ & Hglob)
  end.
  - vm_compute; reflexivity.
  - apply list_elem_of_here.
  - split; [exact Hpre|]. rewrite Hglob; [reflexivity|].
    intros lib g st st' res (m & -> & _ & Hm)%elem_of_EagerModuleSet _ Hcall.
    apply (stub_open_keeps_other_global g (module_name m) "ffi" st st' res);
      [done| |exact Hcall].
    destruct m; try done. by apply Ffi_not_eager in Hm.
Defined.

Lemma disabled_module_absent_restricted :
  disabled restricted_config Io = true /\
  ("io" ∉ names (EagerModuleSet restricted_config)) /\
  ("io" ∉ names (LazyModuleSet restricted_config)).
Proof.
  split; [reflexivity|].
  apply (disabled_module_absent stub_open restricted_config Io). reflexivity.
Defined.

Lemma eager_failure_propagates_io :
  exists st1 st,
    eager_pass_spec stub_open_io_fails
      [reg "" luaopen_base; reg "package" luaopen_package;
       reg "table" luaopen_table] (store fresh_state) = inl st1 /\
    stub_open_io_fails luaopen_io [TStr "io"] st1 = CallRaises st /\
    (globals st !! "_G" = Some (TTab 0%nat) /\
     globals st !! "package" = Some (TTab 1%nat) /\
     globals st !! "table" = Some (TTab 2%nat)) /\
    luaL_openlibs stub_open_io_fails full_config fresh_state =
    Raised {| stack := [TStr "caller"]; store := st;
              trace := [EvCall luaopen_base [TStr ""] 0;
                        EvCall luaopen_package [TStr "package"] 0;
                        EvCall luaopen_table [TStr "table"] 0;
                        EvCall luaopen_io [TStr "io"] 0] |}.
Proof.
  eexists _, _. split; [vm_compute; reflexivity|].
  split; [vm_compute; reflexivity|].
  split; [repeat split; vm_compute; reflexivity|].
  eapply proj1, (eager_failure_propagates stub_open_io_fails full_config
           [reg "" luaopen_base; reg "package" luaopen_package;
            reg "table" luaopen_table]
           [reg "os" luaopen_os; reg "string" luaopen_string;
            reg "math" luaopen_math; reg "debug" luaopen_debug;
            reg "bit" luaopen_bit; reg "jit" luaopen_jit]
           "io" luaopen_io fresh_state).
  - reflexivity.
  - vm_compute; reflexivity.
  - vm_compute; reflexivity.
Defined.

Lemma base_module_first_restricted :
  head (EagerModuleSet restricted_config) = Some (reg "" luaopen_base).
Proof.
  apply (base_module_first stub_open restricted_config).
  apply list_elem_of_here.
Defined.

Lemma eager_lazy_names_disjoint_math :
  "math" ∈ names (EagerModuleSet full_config) /\
  "math" ∉ names (LazyModuleSet full_config).
Proof.
  assert ("math" ∈ names (EagerModuleSet full_config)) as Hin
    by (do 6 apply list_elem_of_further; apply list_elem_of_here).
  split; [exact Hin|].
  apply (eager_lazy_names_disjoint full_config "math" Hin).
Defined.

Lemma installer_preserves_stack_full :
  exists L',
    luaL_openlibs stub_open full_config fresh_state = Returned L' /\
    stack L' = [TStr "caller"].
Proof.
  eexists. split; [vm_compute; reflexivity|].
  apply (installer_preserves_stack stub_open full_config fresh_state).
  vm_compute; reflexivity.
Defined.

(** * Further properties of the two arrays *)

Lemma funcs_modules (ms : list module) :
  funcs (module_reg <$> ms) = module_func <$> ms.
Proof. induction ms as [|m ms IH]; [done|]. simpl. f_equal. apply IH. Qed.

Lemma NoDup_eager_order : NoDup eager_order.
Proof. compute_done. Qed.

#[global] Instance module_call_inj : Inj (=) (=) module_call.
Proof. intros m1 m2 [= H _]. by apply (inj module_func). Qed.

#[global] Instance module_setfield_inj : Inj (=) (=) module_setfield.
Proof. intros m1 m2 [= H _]. by apply (inj module_name). Qed.

Lemma module_reg_in_EagerModuleSet (c : Config) (m : module) :
  m ∈ eager_order ->
  module_reg m ∈ EagerModuleSet c <-> disabled c m = false.
Proof.
  intros Hm. rewrite elem_of_EagerModuleSet. split.
  - intros (m' & [= Hn _] & Hen & _). by apply (inj module_name) in Hn as ->.
  - intros Hen. by exists m.
Qed.

Lemma module_reg_in_LazyModuleSet (c : Config) :
  module_reg Ffi ∈ LazyModuleSet c <-> LJ_HASFFI c = true.
Proof.
  rewrite elem_of_LazyModuleSet. split.
  - intros (m & [= Hn _] & Hen & _). apply (inj module_name Ffi m) in Hn as <-.
    unfold enabled in Hen. simpl in Hen. by destruct (LJ_HASFFI c).
  - intros Hffi. exists Ffi. split; [done|]. split.
    + unfold enabled. simpl. by rewrite Hffi.
    + apply list_elem_of_here.
Qed.

(** X1: a module whose switch is not set is compiled in. An eager module has
    its descriptor in the EagerModuleSet, and in every run of the installer
    that returns its opener was run: applied to its name on the store the
    descriptors before it left, it returned, the descriptors after it were run
    from the store it left, and the globals at the end are those they built;
    the call is among the run's events. The FFI module, when the platform has
    it, is in the LazyModuleSet, and after every such run the table
    "_PRELOAD" names holds its opener under its name; the registration is
    among the run's events. *)
Theorem enabled_module_present (c : Config) (m : module) :
  disabled c m = false ->
  (m ∈ eager_order ->
   module_reg m ∈ EagerModuleSet c /\
   forall ep L L',
     luaL_openlibs ep c L = Returned L' ->
     module_call m ∈ new_events L L' /\
     exists pre post st0 st1 res st2,
       EagerModuleSet c = pre ++ module_reg m :: post /\
       eager_pass_spec ep pre (store L) = inl st0 /\
       ep (module_func m) [TStr (module_name m)] st0 = CallReturns st1 res /\
       eager_pass_spec ep post st1 = inl st2 /\
       globals (store L') = globals st2) /\
  (m = Ffi ->
   module_reg m ∈ LazyModuleSet c /\
   forall ep L L',
     luaL_openlibs ep c L = Returned L' ->
     module_setfield m ∈ new_events L L' /\
     exists r, registry (store L') !! "_PRELOAD" = Some (TTab r) /\
               tables (store L') !! r ≫= (.!! module_name m)
                 = Some (TFunc (module_func m))).
Proof.
  intros Hen. split.
  - intros Hm.
    assert (module_reg m ∈ EagerModuleSet c) as Hin
      by by apply module_reg_in_EagerModuleSet.
    split; [done|]. intros ep L L' Hrun. split.
    + rewrite (new_events_returned _ _ _ _ Hrun).
      apply elem_of_installer_events. left. by exists m.
    + apply list_elem_of_split in Hin as (pre & post & Heq).
      destruct (returned_eager_pass _ _ _ _ Hrun) as (st2 & Hpass & Hglob).
      rewrite Heq in Hpass.
      apply eager_pass_spec_middle in Hpass as (st0 & st1 & res & H0 & H1 & H2).
      by exists pre, post, st0, st1, res, st2.
  - intros ->.
    assert (module_reg Ffi ∈ LazyModuleSet c) as Hin.
    { apply module_reg_in_LazyModuleSet. simpl in Hen.
      by destruct (LJ_HASFFI c). }
    split; [done|]. intros ep L L' Hrun. split.
    + rewrite (new_events_returned _ _ _ _ Hrun).
      apply elem_of_installer_events. right. right. exists Ffi.
      repeat split; [done|apply list_elem_of_here].
    + by apply (lazy_entry_stored ep c L L').
Qed.

(** X2: in every build configuration no name and no opener occurs twice in
    the EagerModuleSet, and a run of the installer that returns has made no
    event twice: no library is opened or registered a second time. *)
Theorem no_module_twice (c : Config) :
  NoDup (names (EagerModuleSet c)) /\
  NoDup (funcs (EagerModuleSet c)) /\
  (forall ep L L', luaL_openlibs ep c L = Returned L' ->
                   NoDup (new_events L L')).
Proof.
  assert (NoDup (filter (enabled c) eager_order)) as Hnd
    by apply NoDup_filter, NoDup_eager_order.
  split; [|split].
  - rewrite EagerModuleSet_modules, names_modules.
    by apply (NoDup_fmap_2 _).
  - rewrite EagerModuleSet_modules, funcs_modules.
    by apply (NoDup_fmap_2 _).
  - intros ep L L' Hrun. rewrite (new_events_returned _ _ _ _ Hrun).
    rewrite installer_events_modules. apply NoDup_app. split; [|split].
    + by apply (NoDup_fmap_2 _).
    + intros e (m & -> & _)%list_elem_of_fmap
        [He|(m' & He & _)%list_elem_of_fmap]%elem_of_cons; done.
    + apply NoDup_cons. split.
      * by intros (m & He & _)%list_elem_of_fmap.
      * apply (NoDup_fmap_2 _), NoDup_filter. compute_done.
Qed.

(** X3: for every combination of switches both arrays are well formed: the
    record without a function is the last one and the only one, so each loop
    of the installer stops inside its array; [lj_lib_load] has between 1 and
    11 records and [lj_lib_preload] 1 or 2. *)
Theorem arrays_well_formed (c : Config) :
  (forall i lib, lj_lib_load c !! i = Some lib ->
     (func lib = None <-> S i = length (lj_lib_load c))) /\
  (forall i lib, lj_lib_preload c !! i = Some lib ->
     (func lib = None <-> S i = length (lj_lib_preload c))) /\
  (1 <= length (lj_lib_load c) <= 11)%nat /\
  (1 <= length (lj_lib_preload c) <= 2)%nat.
Proof.
  assert (forall libs i lib,
            Forall has_func libs ->
            (libs ++ [sentinel]) !! i = Some lib ->
            (func lib = None <-> S i = length (libs ++ [sentinel]))) as Hshape.
  { intros libs i lib Hall Hi. rewrite length_app. simpl.
    destruct (decide (i < length libs)%nat) as [Hlt|Hge].
    - rewrite lookup_app_l in Hi by done.
      rewrite Forall_lookup in Hall. destruct (Hall i lib Hi) as [f Hf].
      rewrite Hf. split; [done|lia].
    - rewrite lookup_app_r in Hi by lia.
      destruct (i - length libs)%nat as [|j] eqn:Hj; [|done].
      injection Hi as <-. simpl. split; [lia|done]. }
  split; [|split; [|split]].
  - intros i lib. rewrite lj_lib_load_sentinel.
    apply Hshape, EagerModuleSet_has_func.
  - intros i lib. rewrite lj_lib_preload_sentinel.
    apply Hshape, LazyModuleSet_has_func.
  - rewrite lj_lib_load_modules, length_app, length_fmap. simpl.
    pose proof (length_filter (enabled c) eager_order) as Hle.
    simpl in Hle. lia.
  - rewrite lj_lib_preload_modules, length_app, length_fmap. simpl.
    pose proof (length_filter (enabled c) lazy_order) as Hle.
    simpl in Hle. lia.
Qed.

(** X4: the two arrays tell the configuration: builds with the same
    [lj_lib_load] and the same [lj_lib_preload] have every switch alike. *)
Theorem arrays_determine_config (c1 c2 : Config) :
  lj_lib_load c1 = lj_lib_load c2 ->
  lj_lib_preload c1 = lj_lib_preload c2 ->
  c1 = c2.
Proof.
  intros Hload Hpre. apply same_switches. intros m.
  assert (EagerModuleSet c1 = EagerModuleSet c2) as He
    by (unfold EagerModuleSet; by rewrite Hload).
  assert (LazyModuleSet c1 = LazyModuleSet c2) as Hl
    by (unfold LazyModuleSet; by rewrite Hpre).
  destruct (decide (m ∈ eager_order)) as [Hm|Hm].
  - pose proof (module_reg_in_EagerModuleSet c1 m Hm) as H1.
    pose proof (module_reg_in_EagerModuleSet c2 m Hm) as H2.
    rewrite He in H1. rewrite H2 in H1.
    destruct (disabled c1 m), (disabled c2 m); intuition congruence.
  - assert (m = Ffi) as -> by (destruct m; try done; exfalso; apply Hm; compute_done).
    pose proof (module_reg_in_LazyModuleSet c1) as H1.
    pose proof (module_reg_in_LazyModuleSet c2) as H2.
    rewrite Hl in H1. rewrite H2 in H1. simpl.
    destruct (LJ_HASFFI c1), (LJ_HASFFI c2); intuition congruence.
Qed.

(** * Further properties of the installer *)

Lemma new_ref_fresh (st : Store) : tables st !! new_ref st = None.
Proof. apply not_elem_of_dom. unfold new_ref. apply is_fresh. Qed.

Lemma register_lazy_tables (c : Config) (r : nat) (st : Store) :
  tables (foldl (register_lazy r) st (LazyModuleSet c)) =
  if decide (LazyModuleSet c = []) then tables st
  else <[r := <[LUA_FFILIBNAME := TFunc luaopen_ffi]> (default ∅ (tables st !! r))]>
         (tables st).
Proof.
  destruct (LazyModuleSet_cases c) as [->| ->]; by case_decide.
Qed.

Lemma names_LazyModuleSet (c : Config) (k : string) :
  k ∈ names (LazyModuleSet c) <->
  LazyModuleSet c <> [] /\ k = LUA_FFILIBNAME.
Proof.
  destruct (LazyModuleSet_cases c) as [->| ->]; simpl.
  - rewrite elem_of_nil. by split; [|intros [? _]].
  - rewrite list_elem_of_singleton. by split; [|intros [_ ?]].
Qed.

Section InstallerFurther.

Variable entry_point : lua_CFunction -> list TValue -> Store -> call_result.

Local Abbreviation luaL_openlibs_load := (luaL_openlibs_load entry_point).
Local Abbreviation luaL_openlibs := (luaL_openlibs entry_point).

(** X7: what the installer itself changes, once the eager openers are done,
    is confined to the preload table: the globals are untouched, every
    registry key other than "_PRELOAD" keeps its value, and every table other
    than the one "_PRELOAD" names stays as it was. *)
Theorem installer_frame (c : Config) (L L1 L' : lua_State) :
  luaL_openlibs c L = Returned L' ->
  luaL_openlibs_load (lj_lib_load c) L = Returned L1 ->
  globals (store L') = globals (store L1) /\
  (forall k, k <> "_PRELOAD" ->
     registry (store L') !! k = registry (store L1) !! k) /\
  (forall r' t,
     tables (store L1) !! r' = Some t ->
     registry (store L') !! "_PRELOAD" <> Some (TTab r') ->
     tables (store L') !! r' = Some t).
Proof.
  intros Hrun Hload.
  destruct (luaL_openlibs_returned _ _ _ _ Hrun)
    as (L1' & r & st2 & Hload' & Hfind & Hst).
  rewrite Hload in Hload'. injection Hload' as <-.
  destruct (find_preload_slot _ _ _ Hfind) as [Hslot Hglob].
  destruct (register_lazy_frame r (LazyModuleSet c) st2) as [Hg Hr].
  rewrite Hst, Hg, Hr, register_lazy_tables. split; [done|].
  unfold find_preload in Hfind.
  assert (forall r' t, tables (store L1) !! r' = Some t -> r' <> r ->
                       tables st2 !! r' = Some t) as Htab.
  { intros r' t Ht Hne.
    destruct (registry (store L1) !! "_PRELOAD") as [[| | |r0]|];
      simplify_eq/=; by rewrite ?lookup_insert_ne. }
  split.
  - intros k Hk.
    destruct (registry (store L1) !! "_PRELOAD") as [[| | |r0]|] eqn:Hreg;
      simplify_eq/=; unfold field_set; simpl; by rewrite ?lookup_insert_ne.
  - intros r' t Ht Hne. assert (r' <> r) as Hr' by congruence.
    case_decide; [by apply Htab|].
    rewrite lookup_insert_ne by done. by apply Htab.
Qed.

(** X8: a preload table that is already in the registry when the eager
    openers are done is used as it is: "_PRELOAD" still names the same table
    afterwards, and every entry of it under a key that is not a lazy name is
    kept. *)
Theorem preload_table_reused (c : Config) (L L1 L' : lua_State) (r : nat) :
  luaL_openlibs c L = Returned L' ->
  luaL_openlibs_load (lj_lib_load c) L = Returned L1 ->
  registry (store L1) !! "_PRELOAD" = Some (TTab r) ->
  registry (store L') !! "_PRELOAD" = Some (TTab r) /\
  (forall k, k ∉ names (LazyModuleSet c) ->
     tables (store L') !! r ≫= (.!! k) = tables (store L1) !! r ≫= (.!! k)).
Proof.
  intros Hrun Hload Hreg.
  destruct (luaL_openlibs_returned _ _ _ _ Hrun)
    as (L1' & r' & st2 & Hload' & Hfind & Hst).
  rewrite Hload in Hload'. injection Hload' as <-.
  unfold find_preload in Hfind. rewrite Hreg in Hfind. injection Hfind as <- <-.
  destruct (register_lazy_frame r (LazyModuleSet c) (store L1)) as [_ Hr].
  rewrite Hst, Hr, register_lazy_tables. split; [done|].
  intros k Hk. case_decide; [done|].
  rewrite lookup_insert_eq. simpl.
  rewrite lookup_insert_ne.
  - by destruct (tables (store L1) !! r).
  - intros <-. apply Hk, names_LazyModuleSet. done.
Qed.

(** X9: when the registry has no "_PRELOAD" entry after the eager openers,
    the installer makes one: a table that did not exist before, whose entries
    are exactly the pairs of the LazyModuleSet. *)
Theorem preload_table_created (c : Config) (L L1 L' : lua_State) :
  luaL_openlibs c L = Returned L' ->
  luaL_openlibs_load (lj_lib_load c) L = Returned L1 ->
  registry (store L1) !! "_PRELOAD" = None ->
  exists r,
    tables (store L1) !! r = None /\
    registry (store L') !! "_PRELOAD" = Some (TTab r) /\
    is_Some (tables (store L') !! r) /\
    (forall k v,
       tables (store L') !! r ≫= (.!! k) = Some v <->
       exists f, v = TFunc f /\ reg k f ∈ LazyModuleSet c).
Proof.
  intros Hrun Hload Hreg.
  destruct (luaL_openlibs_returned _ _ _ _ Hrun)
    as (L1' & r & st2 & Hload' & Hfind & Hst).
  rewrite Hload in Hload'. injection Hload' as <-.
  destruct (find_preload_slot _ _ _ Hfind) as [Hslot _].
  assert (r = new_ref (store L1) /\
          tables st2 = <[r := ∅]> (tables (store L1))) as [Hnew Htab].
  { unfold find_preload in Hfind. rewrite Hreg in Hfind.
    by injection Hfind as <- <-. }
  destruct (register_lazy_frame r (LazyModuleSet c) st2) as [_ Hr].
  exists r. split; [rewrite Hnew; apply new_ref_fresh|].
  rewrite Hst, Hr, register_lazy_tables, Htab. split; [done|].
  destruct (LazyModuleSet_cases c) as [Hl|Hl]; rewrite Hl;
    case_decide; try done; rewrite !lookup_insert_eq; simpl.
  - split; [done|]. intros k v. rewrite lookup_empty. split; [done|].
    by intros (f & _ & ?%elem_of_nil).
  - split; [done|]. intros k v. split.
    + intros [[<- <-]|[_ Hv]]%lookup_insert_Some; [|done].
      exists luaopen_ffi. split; [done|]. apply list_elem_of_here.
    + intros (f & -> & [= -> ->]%list_elem_of_singleton).
      apply lookup_insert_eq.
Qed.

(** X10: on a platform without FFI the installer still sees to it that the
    registry has a preload table, asking for it with size hint 0, and that is
    the last thing it does: it registers nothing. *)
Theorem no_ffi_empty_preload (c : Config) (L L' : lua_State) :
  LJ_HASFFI c = false ->
  luaL_openlibs c L = Returned L' ->
  LazyModuleSet c = [] /\
  (exists r, registry (store L') !! "_PRELOAD" = Some (TTab r)) /\
  last (new_events L L') = Some (EvFindTable LUA_REGISTRYINDEX "_PRELOAD" 0) /\
  (forall idx k v, EvSetField idx k v ∉ new_events L L').
Proof.
  intros Hffi Hrun.
  assert (LazyModuleSet c = []) as Hlazy.
  { destruct (LazyModuleSet_cases c) as [Hl|Hl]; [done|].
    assert (module_reg Ffi ∈ LazyModuleSet c) as Hin
      by (rewrite Hl; apply list_elem_of_here).
    apply module_reg_in_LazyModuleSet in Hin. congruence. }
  split; [done|].
  destruct (luaL_openlibs_returned _ _ _ _ Hrun)
    as (L1 & r & st2 & _ & Hfind & Hst).
  destruct (find_preload_slot _ _ _ Hfind) as [Hslot _].
  rewrite (new_events_returned _ _ _ _ Hrun).
  unfold installer_events, findtable_event. rewrite Hlazy in *. simpl in *.
  split; [exists r; by rewrite Hst|]. split.
  - by rewrite last_snoc.
  - intros idx k v [Hin|Hin%list_elem_of_singleton]%elem_of_app; [|done].
    apply list_elem_of_omap in Hin as (lib & _ & Hev).
    unfold call_event in Hev. by destruct (func lib).
Qed.

(** X11: each eager opener runs on the store the opener before it left (the
    first one on the store of the caller), whatever result values that one
    returned: the loop over the descriptors up to and including an opener that
    returns ends with the store it left and the stack of the caller. *)
Theorem opener_sees_predecessors (c : Config) (pre post : list luaL_Reg)
    (n : string) (f : lua_CFunction) (L L1 : lua_State) (st : Store)
    (res : list TValue) :
  EagerModuleSet c = pre ++ reg n f :: post ->
  luaL_openlibs_load (pre ++ [sentinel]) L = Returned L1 ->
  entry_point f [TStr n] (store L1) = CallReturns st res ->
  luaL_openlibs_load ((pre ++ [reg n f]) ++ [sentinel]) L =
  Returned {| stack := stack L; store := st;
              trace := trace L ++ omap call_event pre ++ [EvCall f [TStr n] 0] |}.
Proof.
  intros Heager Hpre Hcall.
  pose proof (EagerModuleSet_has_func c) as Hfuncs.
  rewrite Heager in Hfuncs. apply Forall_app in Hfuncs as [Hfuncs _].
  pose proof (load_loop_spec entry_point pre [] L Hfuncs) as Hspec.
  rewrite Hpre in Hspec. destruct Hspec as [Hs Ht].
  rewrite <- app_assoc, load_loop_app, Hpre by done. unfold and_then.
  simpl app. rewrite load_loop_cons, eager_round.
  cbn [name_value]. rewrite Hcall. simpl.
  by rewrite Hs, Ht, <- app_assoc.
Qed.

End InstallerFurther.

(** X12: the result values of the openers do not matter to the installer:
    with two behaviours of the openers that leave the same stores and raise
    errors alike, but may return different values, the installer ends the
    same way in the same state. *)
Theorem opener_results_ignored
    (ep1 ep2 : lua_CFunction -> list TValue -> Store -> call_result)
    (c : Config) (L : lua_State) :
  (forall f args st, call_effect (ep1 f args st) = call_effect (ep2 f args st)) ->
  luaL_openlibs ep1 c L = luaL_openlibs ep2 c L.
Proof.
  intros Heq.
  assert (forall arr L0, luaL_openlibs_load ep1 arr L0 = luaL_openlibs_load ep2 arr L0)
    as Hload.
  { induction arr as [|lib arr IH]; intros L0; simpl; [done|].
    destruct (func lib) as [f|]; [|done].
    rewrite !eager_round. simpl.
    specialize (Heq f [name_value (name lib)] (store L0)).
    destruct (ep1 _ _ _), (ep2 _ _ _); simplify_eq/=; [apply IH|done]. }
  unfold luaL_openlibs. by rewrite Hload.
Qed.

(** * The further properties at concrete inputs *)

Lemma enabled_module_present_math :
  module_reg Math ∈ EagerModuleSet restricted_config /\
  exists L',
    luaL_openlibs stub_open restricted_config fresh_state = Returned L' /\
    exists pre post st0 st1 res st2,
      EagerModuleSet restricted_config = pre ++ module_reg Math :: post /\
      eager_pass_spec stub_open pre (store fresh_state) = inl st0 /\
      stub_open luaopen_math [TStr "math"] st0 = CallReturns st1 res /\
      eager_pass_spec stub_open post st1 = inl st2 /\
      globals (store L') = globals st2.
Proof.
  destruct (enabled_module_present restricted_config Math) as [Heager _];
    [reflexivity|].
  destruct Heager as [Hin Hrun]; [compute_done|].
  split; [exact Hin|].
  eexists. split; [vm_compute; reflexivity|].
  eapply proj2, Hrun. vm_compute; reflexivity.
Defined.

Lemma arrays_determine_config_restricted :
  restricted_config =
  mkConfig false false false true true false false true false false (negb true).
Proof.
  apply (arrays_determine_config restricted_config
           (mkConfig false false false true true false false true false false
              (negb true))); reflexivity.
Defined.

Lemma installer_frame_preloaded :
  exists L1 L',
    luaL_openlibs_load stub_open (lj_lib_load full_config) preloaded_state
      = Returned L1 /\
    luaL_openlibs stub_open full_config preloaded_state = Returned L' /\
    globals (store L') = globals (store L1).
Proof.
  eexists _, _. split; [vm_compute; reflexivity|].
  split; [vm_compute; reflexivity|].
  eapply proj1, (installer_frame stub_open full_config preloaded_state);
    vm_compute; reflexivity.
Defined.

Lemma preload_table_reused_preloaded :
  exists L1 L',
    luaL_openlibs_load stub_open (lj_lib_load full_config) preloaded_state
      = Returned L1 /\
    luaL_openlibs stub_open full_config preloaded_state = Returned L' /\
    registry (store L') !! "_PRELOAD" = Some (TTab 7%nat) /\
    tables (store L') !! 7%nat ≫= (.!! "socket") = Some (TStr "loader").
Proof.
  eexists _, _.
  edestruct (preload_table_reused stub_open full_config preloaded_state)
    as [Hreg Hkeep].
  - vm_compute; reflexivity.
  - vm_compute; reflexivity.
  - vm_compute; reflexivity.
  - split; [vm_compute; reflexivity|]. split; [vm_compute; reflexivity|].
    split; [exact Hreg|]. rewrite (Hkeep "socket"); [vm_compute; reflexivity|].
    compute_done.
Defined.

Lemma preload_table_created_fresh :
  exists L1 L' r,
    luaL_openlibs_load stub_open (lj_lib_load full_config) fresh_state
      = Returned L1 /\
    luaL_openlibs stub_open full_config fresh_state = Returned L' /\
    tables (store L1) !! r = None /\
    registry (store L') !! "_PRELOAD" = Some (TTab r).
Proof.
  eexists _, _.
  edestruct (preload_table_created stub_open full_config fresh_state)
    as (r & Hnew & Hreg & _).
  - vm_compute; reflexivity.
  - vm_compute; reflexivity.
  - vm_compute; reflexivity.
  - exists r. split; [vm_compute; reflexivity|].
    split; [vm_compute; reflexivity|]. split; [exact Hnew|exact Hreg].
Defined.

Lemma no_ffi_empty_preload_restricted :
  exists L',
    luaL_openlibs stub_open restricted_config fresh_state = Returned L' /\
    last (new_events fresh_state L') =
      Some (EvFindTable LUA_REGISTRYINDEX "_PRELOAD" 0).
Proof.
  eexists. split; [vm_compute; reflexivity|].
  eapply proj1, proj2, proj2,
    (no_ffi_empty_preload stub_open restricted_config fresh_state);
    [reflexivity|vm_compute; reflexivity].
Defined.

Lemma opener_sees_predecessors_package :
  exists L1 st res,
    luaL_openlibs_load stub_open ([reg "" luaopen_base] ++ [sentinel]) fresh_state
      = Returned L1 /\
    stub_open luaopen_package [TStr "package"] (store L1) = CallReturns st res /\
    luaL_openlibs_load stub_open
      (([reg "" luaopen_base] ++ [reg "package" luaopen_package]) ++ [sentinel])
      fresh_state =
    Returned {| stack := [TStr "caller"]; store := st;
                trace := [EvCall luaopen_base [TStr ""] 0;
                          EvCall luaopen_package [TStr "package"] 0] |}.
Proof.
  eexists _, _, _. split; [vm_compute; reflexivity|].
  split; [vm_compute; reflexivity|].
  eapply (opener_sees_predecessors stub_open full_config
            [reg "" luaopen_base]
            [reg "table" luaopen_table; reg "io" luaopen_io;
             reg "os" luaopen_os; reg "string" luaopen_string;
             reg "math" luaopen_math; reg "debug" luaopen_debug;
             reg "bit" luaopen_bit; reg "jit" luaopen_jit]
            "package" luaopen_package fresh_state).
  - reflexivity.
  - vm_compute; reflexivity.
  - vm_compute; reflexivity.
Defined.

Lemma opener_results_ignored_silent :
  luaL_openlibs stub_open full_config fresh_state =
  luaL_openlibs stub_open_silent full_config fresh_state.
Proof.
  apply (opener_results_ignored stub_open stub_open_silent full_config fresh_state).
  intros f args st. unfold stub_open_silent.
  destruct (stub_open f args st); reflexivity.
Defined.
